(** * Markdown encoder: the reflective traversal of [md.Marshal]

    A shallow embedding of package [md] (the [Marshaler] interface and the
    functions [Marshal], [marshal], [marshalStr], [obfuscate], [marshalPrt],
    [marshalStruct] and [applyIndentation]) together with the properties of
    the encoder that its specification states.

    Go values are seen through what package [reflect] shows of them; a
    function that may panic returns an [outcome]. *)

From Stdlib Require Import String Ascii List ZArith Lia Bool.
Import ListNotations.

Local Open Scope list_scope.
Local Open Scope string_scope.
Local Open Scope Z_scope.

(* ================================================================== *)
(** ** Panics and results *)

(** The run-time panics the package can raise. *)
Inductive panic : Type :=
| NilDereference        (* method call on a nil [reflect.Type] *)
| InterfaceConversion   (* failed type assertion [v.(string)] *)
| NegativeRepeatCount   (* [strings.Repeat] with a negative count *)
| SliceBounds           (* slice expression out of range *)
| WrongKind.            (* [reflect] accessor used on a value of another kind *)

Inductive outcome (A : Type) : Type :=
| Panics (p : panic)
| Returns (a : A).

Arguments Panics {A} p.
Arguments Returns {A} a.

Definition bind {A B : Type} (c : outcome A) (k : A -> outcome B) : outcome B :=
  match c with
  | Panics p => Panics p
  | Returns a => k a
  end.

Notation "x <- c ;; k" := (bind c (fun x => k))
  (at level 61, c at next level, right associativity).

(** A Go [error] value, identified by its message. *)
Record error : Type := Err { Error : string }.

(** A [[]byte]: [None] is the nil slice. *)
Definition bytes : Type := option string.

(** The pair [([]byte, error)] a marshalling function returns; the error
    component is [None] for a nil error. *)
Definition result : Type := (bytes * option error)%type.

(** [%s] applied to a [[]byte]. *)
Definition string_of_bytes (b : bytes) : string :=
  match b with
  | None => ""
  | Some s => s
  end.

(* ================================================================== *)
(** ** [int], [len], slicing, [strings.Repeat], [strings.Join] *)

(** Go's [int] is a 64-bit two's complement integer on the platforms the
    package targets. *)
Definition wrap_int (z : Z) : Z := (z + 2 ^ 63) mod 2 ^ 64 - 2 ^ 63.

(** [len(s)]: the number of bytes of [s]. *)
Definition len (s : string) : Z := Z.of_nat (String.length s).

Fixpoint drop (n : nat) (s : string) : string :=
  match n, s with
  | O, _ => s
  | S _, EmptyString => EmptyString
  | S n', String _ s' => drop n' s'
  end.

(** [s[lo:]]. *)
Definition slice_from (s : string) (lo : Z) : outcome string :=
  if (lo <? 0) || (len s <? lo) then Panics SliceBounds
  else Returns (drop (Z.to_nat lo) s).

Fixpoint replicate (n : nat) (s : string) : string :=
  match n with
  | O => ""
  | S n' => s ++ replicate n' s
  end.

(** [strings.Repeat(s, count)], the allocation of the result taken to
    succeed. *)
Definition Repeat (s : string) (count : Z) : outcome string :=
  if count <? 0 then Panics NegativeRepeatCount
  else Returns (replicate (Z.to_nat count) s).

(** [strings.Join(elems, sep)]: the first element, then for every further
    element the separator and the element, written to one builder. *)
Definition Join (elems : list string) (sep : string) : string :=
  match elems with
  | [] => ""
  | e :: rest => fold_left (fun b s => b ++ sep ++ s) rest e
  end.

(* ================================================================== *)
(** ** Values as [reflect] shows them *)

Module reflect.

(** [reflect.Kind], as far as [marshal] tells kinds apart. *)
Inductive Kind : Type :=
| String
| Struct
| Ptr
| Other.

(** [reflect.StructField]: the field's name, whether it is exported (what
    [CanInterface] reports for a field of a value obtained from
    [reflect.ValueOf]), and what [Tag.Get] returns for the package's tag
    key (the empty string when the key is absent). *)
Record StructField : Type := {
  Name : string;
  Exported : bool;
  Tag : string
}.

End reflect.

Import reflect(StructField, Name, Exported, Tag).

Unset Elimination Schemes.

(** An [interface{}] value. [Nil] is the nil interface, which has no
    dynamic type. Every other value carries [mm], the pair its
    [MarshalMarkdown] method returns when its dynamic type implements
    [Marshaler] ([None] when it does not), and the data of its kind:
    - [VString]: [exact] says that the dynamic type is [string] itself and
      not a defined type whose underlying type is [string];
    - [VStruct]: the fields in declaration order, each with the value
      [Field(i).Interface()] returns for it (for a field of interface type,
      the value the interface holds, [Nil] when it holds none);
    - [VPtr]: [None] for a nil pointer, else what [Elem().Interface()]
      returns;
    - [VOther]: a value of any other kind, with its [%v] text.

    Values are finite trees: a value that reaches itself through pointers
    is not among them. The call of a [MarshalMarkdown] method is taken to
    return: a nil pointer whose method has a value receiver, on which the
    call panics, is not among the values either. [mm] stands for the
    method set of the dynamic type, so the [mm] of a struct is also set
    when the method is promoted from an embedded field. *)
Inductive value : Type :=
| Nil
| VString (mm : option result) (exact : bool) (s : string)
| VStruct (mm : option result) (fields : list (StructField * value))
| VPtr (mm : option result) (elem : option value)
| VOther (mm : option result) (text : string).

Set Elimination Schemes.

(** [MarshalMarkdown v] is [Some r] when the dynamic type of [v] implements
    [Marshaler] and [v.(Marshaler).MarshalMarkdown()] returns [r]. *)
Definition MarshalMarkdown (v : value) : option result :=
  match v with
  | Nil => None
  | VString mm _ _ | VStruct mm _ | VPtr mm _ | VOther mm _ => mm
  end.

(** [reflect.TypeOf(v).Kind()], for [v] other than the nil interface. *)
Definition Kind (v : value) : reflect.Kind :=
  match v with
  | VString _ _ _ => reflect.String
  | VStruct _ _ => reflect.Struct
  | VPtr _ _ => reflect.Ptr
  | Nil | VOther _ _ => reflect.Other
  end.

(** [fmt.Sprintf("%v", v)], for the values [marshal] applies it to. *)
Definition Sprint (v : value) : string :=
  match v with
  | VOther _ text => text
  | VString _ _ s => s
  | _ => ""
  end.

(* ================================================================== *)
(** ** The package *)

Definition tagOmitField : string := "-".
Definition tagObfuscateField : string := "obfuscate".

(** [marshalOpts]; its field [obfuscate] is [obfuscate_] here, next to the
    function [obfuscate]. *)
Record marshalOpts : Type := {
  indentLevel : Z;
  obfuscate_ : bool
}.

Definition withIncrementedIndentLevel (o : marshalOpts) : marshalOpts :=
  {| indentLevel := wrap_int (indentLevel o + 1); obfuscate_ := obfuscate_ o |}.

Definition obfuscate (str : string) : outcome string :=
  let length := len str in
  if length <=? 4 then Returns str
  else
    stars <- Repeat "*" (length - 4) ;;
    tail <- slice_from str (length - 4) ;;
    Returns (stars ++ tail).

Definition marshalStr (v : value) (opts : marshalOpts) : outcome result :=
  match v with
  | VString _ true valueStr =>
      valueStr <- (if obfuscate_ opts then obfuscate valueStr
                   else Returns valueStr) ;;
      Returns (Some valueStr, None)
  | _ => Panics InterfaceConversion
  end.

Definition tab : string := String (ascii_of_nat 9) "".
Definition newline : string := String (ascii_of_nat 10) "".

(** The loop of [applyIndentation]. *)
Fixpoint indent_each (lines : list string) (level : Z) : outcome (list string) :=
  match lines with
  | [] => Returns []
  | line :: rest =>
      tabs <- Repeat tab level ;;
      rest' <- indent_each rest level ;;
      Returns ((tabs ++ line) :: rest')
  end.

Definition applyIndentation (lines : list string) (level : Z)
  : outcome (list string) :=
  lines <- indent_each lines level ;;
  match lines with
  | first :: rest =>
      if 0 <? level then Returns ((newline ++ first) :: rest)
      else Returns lines
  | [] => Returns lines
  end.

(** [innerOpts]: the options of the recursive call made for a field. *)
Definition fieldOpts (opts : marshalOpts) (fieldType : StructField) : marshalOpts :=
  let innerOpts := withIncrementedIndentLevel opts in
  if (Tag fieldType =? tagObfuscateField)%string
  then {| indentLevel := indentLevel innerOpts; obfuscate_ := true |}
  else innerOpts.

(** [fmt.Sprintf("- **%s**: %s", name, text)]. *)
Definition fieldLine (name : string) (text : bytes) : string :=
  "- **" ++ name ++ "**: " ++ string_of_bytes text.

Section Traversal.

(** The recursive call. *)
Variable marshal : value -> marshalOpts -> outcome result.

(** [marshal] calls [marshalPrt] on pointers only, and only that is
    modelled: what [IsNil] and [Elem] do on values of other kinds is not
    told apart here. *)
Definition marshalPrt (v : value) (opts : marshalOpts) : outcome result :=
  match v with
  | VPtr _ None => Returns (Some "null", None)
  | VPtr _ (Some elem) => marshal elem opts
  | _ => Panics WrongKind
  end.

(** The loop of [marshalStruct] over the fields that remain, with the
    lines collected so far, followed by the end of the function. *)
Fixpoint marshalStruct_loop (fields : list (StructField * value))
    (opts : marshalOpts) (lines : list string) : outcome result :=
  match fields with
  | [] =>
      lines <- applyIndentation lines (indentLevel opts) ;;
      Returns (Some (Join lines newline), None)
  | (fieldType, fieldValue) :: rest =>
      if negb (Exported fieldType) then marshalStruct_loop rest opts lines
      else
        r <- marshal fieldValue (fieldOpts opts fieldType) ;;
        match snd r with
        | Some err => Returns (None, Some err)
        | None =>
            if (Tag fieldType =? tagOmitField)%string
            then marshalStruct_loop rest opts lines
            else marshalStruct_loop rest opts
                   (lines ++ [fieldLine (Name fieldType) (fst r)])%list
        end
  end.

Definition marshalStruct (v : value) (opts : marshalOpts) : outcome result :=
  match v with
  | VStruct _ fields => marshalStruct_loop fields opts []
  | _ => Panics WrongKind
  end.

End Traversal.

Fixpoint marshal (v : value) (opts : marshalOpts) {struct v} : outcome result :=
  match v with
  | Nil => Panics NilDereference
  | _ =>
      match MarshalMarkdown v with
      | Some r => Returns r
      | None =>
          match Kind v with
          | reflect.String => marshalStr v opts
          | reflect.Struct => marshalStruct marshal v opts
          | reflect.Ptr => marshalPrt marshal v opts
          | reflect.Other => Returns (Some (Sprint v), None)
          end
      end
  end.

Definition Marshal (v : value) : outcome result :=
  marshal v {| indentLevel := 0; obfuscate_ := false |}.

(* ================================================================== *)
(** ** Induction over values *)

(** Structural induction that reaches the values held by the fields of a
    struct and the value a pointer points to. *)
Section ValueInduction.

Variable P : value -> Prop.
Hypothesis P_Nil : P Nil.
Hypothesis P_VString : forall mm exact s, P (VString mm exact s).
Hypothesis P_VStruct : forall mm fields,
    Forall (fun f => P (snd f)) fields -> P (VStruct mm fields).
Hypothesis P_VPtr_nil : forall mm, P (VPtr mm None).
Hypothesis P_VPtr : forall mm elem, P elem -> P (VPtr mm (Some elem)).
Hypothesis P_VOther : forall mm text, P (VOther mm text).

Fixpoint value_ind (v : value) : P v :=
  match v with
  | Nil => P_Nil
  | VString mm exact s => P_VString mm exact s
  | VStruct mm fields =>
      P_VStruct mm fields
        ((fix all (fs : list (StructField * value))
            : Forall (fun f => P (snd f)) fs :=
            match fs with
            | [] => Forall_nil _
            | f :: fs' => Forall_cons f (value_ind (snd f)) (all fs')
            end) fields)
  | VPtr mm None => P_VPtr_nil mm
  | VPtr mm (Some elem) => P_VPtr mm elem (value_ind elem)
  | VOther mm text => P_VOther mm text
  end.

End ValueInduction.

(* ================================================================== *)
(** ** Notions the properties are stated with *)

(** The last four bytes of a string, as a slice. *)
Definition last4 (s : string) : string := drop (String.length s - 4) s.

(** A continuation byte of UTF-8, [10xxxxxx]. *)
Definition continuation (c : ascii) : bool :=
  (128 <=? nat_of_ascii c)%nat && (nat_of_ascii c <? 192)%nat.

(** The number of characters of a well-formed UTF-8 text: every byte
    that is not a continuation byte starts one. *)
Fixpoint characters (s : string) : nat :=
  match s with
  | EmptyString => O
  | String c s' => if continuation c then characters s' else S (characters s')
  end.

(** A field together with the value it holds. *)
Definition field : Type := (StructField * value)%type.

(** What the recursive call made for a field returns. *)
Definition fieldResult (opts : marshalOpts) (f : field) : outcome result :=
  marshal (snd f) (fieldOpts opts (fst f)).

(** The recursive call made for the field returns without an error. *)
Definition encodes (opts : marshalOpts) (f : field) : Prop :=
  exists text, fieldResult opts f = Returns (text, None).

(** Every exported field of the list encodes without an error, so that a
    loop over the list runs to its end. *)
Definition all_encode (opts : marshalOpts) (fields : list field) : Prop :=
  Forall (fun f => Exported (fst f) = true -> encodes opts f) fields.

(** The encoded text of a field. *)
Definition fieldBytes (opts : marshalOpts) (f : field) : bytes :=
  match fieldResult opts f with
  | Returns r => fst r
  | Panics _ => None
  end.

(** A field is shown when it is exported and not annotated omit. *)
Definition shown (fieldType : StructField) : bool :=
  Exported fieldType && negb (Tag fieldType =? tagOmitField)%string.

(** One line [- **FieldName**: value] per shown field, in declaration
    order. *)
Definition fieldLines (opts : marshalOpts) (fields : list field) : list string :=
  map (fun f => "- **" ++ Name (fst f) ++ "**: "
                ++ string_of_bytes (fieldBytes opts f))
      (filter (fun f => shown (fst f)) fields).

(** What the loop of [marshalStruct] makes of the outcome of a recursive
    call: a panic goes on, an error is returned with nil bytes, and
    otherwise the loop continues. *)
Definition verdict (x : outcome result) : option (outcome result) :=
  match x with
  | Panics p => Some (Panics p)
  | Returns (_, Some err) => Some (Returns (None, Some err))
  | Returns (_, None) => None
  end.

(** How the loop of [marshalStruct] is left before its end, if it is. *)
Fixpoint abort (opts : marshalOpts) (fields : list field) : option (outcome result) :=
  match fields with
  | [] => None
  | f :: rest =>
      if negb (Exported (fst f)) then abort opts rest
      else
        match verdict (fieldResult opts f) with
        | Some x => Some x
        | None => abort opts rest
        end
  end.

(** The layout of a composite value in the words of the specification:
    every line prefixed with [d] tabs, the lines separated by single
    newlines with none after the last line, and a newline before the first
    line when [d > 0] and there is a line. *)
Fixpoint separated (lines : list string) : string :=
  match lines with
  | [] => ""
  | [line] => line
  | line :: rest => line ++ newline ++ separated rest
  end.

Definition layout (d : nat) (lines : list string) : string :=
  match lines with
  | [] => ""
  | _ =>
      (match d with O => "" | S _ => newline end)
      ++ separated (map (fun line => replicate d tab ++ line) lines)
  end.

(** The field with its annotation replaced. *)
Definition annotate (fieldType : StructField) (tag : string) : StructField :=
  {| reflect.Name := Name fieldType;
     reflect.Exported := Exported fieldType;
     reflect.Tag := tag |}.

(** [custom_failure opts v text err]: while [v] is encoded with [opts], the
    traversal reaches a self-encoding value whose [MarshalMarkdown] returns
    the error [err]; [text] is what is returned next to the error: the
    bytes of the failing encoder when it is [v] itself or is reached
    through pointers only, and nil once a struct field lies in between. *)
Inductive custom_failure : marshalOpts -> value -> bytes -> error -> Prop :=
| failure_self opts v text err :
    MarshalMarkdown v = Some (text, Some err) ->
    custom_failure opts v text err
| failure_elem opts elem text err :
    custom_failure opts elem text err ->
    custom_failure opts (VPtr None (Some elem)) text err
| failure_field opts before fieldType fieldValue after text err :
    all_encode opts before ->
    Exported fieldType = true ->
    custom_failure (fieldOpts opts fieldType) fieldValue text err ->
    custom_failure opts
      (VStruct None (before ++ (fieldType, fieldValue) :: after)) None err.

(** The largest [int]. *)
Definition max_int : Z := 2 ^ 63 - 1.

(** [pointers n v]: [v] behind [n] pointers whose types have no
    [MarshalMarkdown] method. *)
Fixpoint pointers (n : nat) (v : value) : value :=
  match n with
  | O => v
  | S n' => VPtr None (Some (pointers n' v))
  end.

(** The options with the given level and redaction flag. *)
Definition options (level : Z) (flag : bool) : marshalOpts :=
  {| indentLevel := level; obfuscate_ := flag |}.

(* ================================================================== *)
(** ** Values used in examples *)

(** The options [Marshal] starts with. *)
Definition top : marshalOpts := {| indentLevel := 0; obfuscate_ := false |}.

(** An exported field without annotation, and one annotated omit. *)
Definition plain (name : string) : StructField :=
  {| reflect.Name := name; reflect.Exported := true; reflect.Tag := "" |}.

Definition omitted (name : string) : StructField :=
  {| reflect.Name := name; reflect.Exported := true; reflect.Tag := "-" |}.

(** A value of a self-encoding integer type whose encoder fails. *)
Definition failing : value := VOther (Some (None, Some (Err "boom"))) "7".

(** A pointer of a self-encoding pointer type whose encoder returns bytes
    together with an error. *)
Definition handle : value :=
  VPtr (Some (Some "partial", Some (Err "boom"))) (Some (VStruct None [])).

(** A struct with one integer field. *)
Definition inner : value := VStruct None [(plain "X", VOther None "1")].

(** A self-encoding struct whose fields are annotated omit and obfuscate. *)
Definition selfEncodingAccount : value :=
  VStruct (Some (Some "account #7", None))
    [({| reflect.Name := "Secret"; reflect.Exported := true; reflect.Tag := "-" |},
      VString None true "x");
     ({| reflect.Name := "Token"; reflect.Exported := true;
         reflect.Tag := "obfuscate" |},
      VString None true "abcdef1234")].

(* ================================================================== *)
(** ** Strings *)

Lemma length_append (s t : string) :
  String.length (s ++ t) = (String.length s + String.length t)%nat.
Proof.
  induction s as [|c s IH]; simpl; [reflexivity | now rewrite IH].
Qed.

Lemma append_assoc (s t u : string) : (s ++ t) ++ u = s ++ t ++ u.
Proof.
  induction s as [|c s IH]; simpl; [reflexivity | now rewrite IH].
Qed.

Lemma append_empty_r (s : string) : s ++ "" = s.
Proof.
  induction s as [|c s IH]; simpl; [reflexivity | now rewrite IH].
Qed.

Lemma length_replicate_char (n : nat) (c : ascii) :
  String.length (replicate n (String c "")) = n.
Proof.
  induction n as [|n IH]; simpl; [reflexivity | now rewrite IH].
Qed.

Lemma get_replicate_char (n i : nat) (c : ascii) (t : string) :
  (i < n)%nat -> String.get i (replicate n (String c "") ++ t) = Some c.
Proof.
  revert i; induction n as [|n IH]; intros i Hi; [lia|].
  destruct i as [|i]; simpl; [reflexivity | apply IH; lia].
Qed.

Lemma length_drop (n : nat) (s : string) :
  String.length (drop n s) = (String.length s - n)%nat.
Proof.
  revert s; induction n as [|n IH]; intros [|c s]; simpl; auto.
Qed.

Lemma drop_append_length (s t : string) : drop (String.length s) (s ++ t) = t.
Proof.
  induction s as [|c s IH]; simpl; [reflexivity | exact IH].
Qed.

(** Dropping the first [n] bytes keeps what follows position [n]. *)
Lemma get_drop (n i : nat) (s : string) :
  String.get i (drop n s) = String.get (n + i) s.
Proof.
  revert s; induction n as [|n IH]; intros [|c s]; simpl; auto.
Qed.

Lemma Repeat_nonneg (s : string) (count : Z) :
  0 <= count -> Repeat s count = Returns (replicate (Z.to_nat count) s).
Proof.
  intros H; unfold Repeat.
  destruct (count <? 0) eqn:E; [apply Z.ltb_lt in E; lia | reflexivity].
Qed.

Lemma slice_from_in_range (s : string) (lo : Z) :
  0 <= lo <= len s -> slice_from s lo = Returns (drop (Z.to_nat lo) s).
Proof.
  intros H; unfold slice_from.
  destruct (lo <? 0) eqn:E1; [apply Z.ltb_lt in E1; lia|].
  destruct (len s <? lo) eqn:E2; [apply Z.ltb_lt in E2; lia | reflexivity].
Qed.

(** What [obfuscate] computes on a string of more than four bytes. *)
Lemma obfuscate_long (str : string) :
  4 < len str ->
  obfuscate str =
    Returns (replicate (String.length str - 4) "*"
             ++ drop (String.length str - 4) str).
Proof.
  intros H; unfold obfuscate.
  destruct (len str <=? 4) eqn:E; [apply Z.leb_le in E; lia|].
  rewrite Repeat_nonneg by lia.
  rewrite slice_from_in_range by lia.
  unfold len in *; simpl.
  replace (Z.to_nat (Z.of_nat (String.length str) - 4))
    with (String.length str - 4)%nat by lia.
  reflexivity.
Qed.

(* ================================================================== *)
(** ** Redaction *)

(** C1, as the code has it. For every string [s], with [L] its length in
    bytes, as [len] and slicing count: if [L <= 4], [obfuscate] returns [s]
    unchanged; if [L > 4], the result has [L] bytes, each of its first
    [L - 4] bytes is the mask character ['*'], and its last four bytes are
    the last four bytes of [s]. *)
Theorem obfuscate_keeps_last_four (s : string) :
  (len s <= 4 -> obfuscate s = Returns s) /\
  (4 < len s ->
   exists masked,
     obfuscate s = Returns masked /\
     len masked = len s /\
     (forall i, (i < String.length s - 4)%nat ->
                String.get i masked = Some "*"%char) /\
     String.length (last4 s) = 4%nat /\
     last4 masked = last4 s).
Proof.
  split; intros H.
  - unfold obfuscate.
    destruct (len s <=? 4) eqn:E; [reflexivity | apply Z.leb_gt in E; lia].
  - exists (replicate (String.length s - 4) "*" ++ last4 s).
    assert (Hn : (4 < String.length s)%nat) by (unfold len in H; lia).
    assert (Hlen : String.length (replicate (String.length s - 4) "*" ++ last4 s)
                   = String.length s).
    { rewrite length_append, length_replicate_char.
      unfold last4; rewrite length_drop; lia. }
    split; [apply obfuscate_long; exact H|].
    split; [unfold len; now rewrite Hlen|].
    split; [intros i Hi; now apply get_replicate_char|].
    split; [unfold last4; rewrite length_drop; lia|].
    unfold last4 at 1; rewrite Hlen.
    rewrite <- (length_replicate_char (String.length s - 4) "*"%char) at 1.
    apply drop_append_length.
Qed.

Lemma obfuscate_keeps_last_four_witness :
  obfuscate "abcd" = Returns "abcd" /\
  exists masked,
    obfuscate "abcdef1234" = Returns masked /\
    len masked = len "abcdef1234" /\
    (forall i, (i < String.length "abcdef1234" - 4)%nat ->
               String.get i masked = Some "*"%char) /\
    String.length (last4 "abcdef1234") = 4%nat /\
    last4 masked = last4 "abcdef1234".
Proof.
  split.
  - apply (proj1 (obfuscate_keeps_last_four "abcd")); vm_compute; discriminate.
  - apply (proj2 (obfuscate_keeps_last_four "abcdef1234")); reflexivity.
Defined.

(** The token of the specification's first scenario. *)
Example obfuscate_token : obfuscate "abcdef1234" = Returns "******1234".
Proof. reflexivity. Qed.

(** C1 fails when lengths are counted in characters: a text of three
    two-byte characters (six bytes) is not returned unchanged, and the
    masked form of a text of five such characters has eight characters, of
    which six are masks and two are kept. *)
Lemma obfuscate_characters_counterexample :
  let e := String (ascii_of_nat 195) (String (ascii_of_nat 169) "") in
  characters (e ++ e ++ e) = 3%nat /\
  obfuscate (e ++ e ++ e) = Returns ("**" ++ e ++ e) /\
  obfuscate (e ++ e ++ e) <> Returns (e ++ e ++ e) /\
  characters (e ++ e ++ e ++ e ++ e) = 5%nat /\
  obfuscate (e ++ e ++ e ++ e ++ e) = Returns ("******" ++ e ++ e) /\
  characters ("******" ++ e ++ e) = 8%nat /\
  characters (last4 (e ++ e ++ e ++ e ++ e)) = 2%nat.
Proof.
  repeat split. discriminate.
Qed.

(** Lengths are byte counts: a string of three two-byte UTF-8 sequences
    (six bytes) has its first two bytes masked. *)
Example obfuscate_counts_bytes :
  let e := String (ascii_of_nat 195) (String (ascii_of_nat 169) "") in
  obfuscate (e ++ e ++ e) = Returns ("**" ++ e ++ e).
Proof. reflexivity. Qed.

(* ================================================================== *)
(** ** The dispatch of [marshal] *)

Lemma marshal_self (v : value) (r : result) (opts : marshalOpts) :
  MarshalMarkdown v = Some r -> marshal v opts = Returns r.
Proof.
  destruct v; simpl; intros H; try discriminate; now rewrite H.
Qed.

Lemma marshal_struct (fields : list field) (opts : marshalOpts) :
  marshal (VStruct None fields) opts = marshalStruct_loop marshal fields opts [].
Proof. reflexivity. Qed.

Lemma marshal_elem (elem : value) (opts : marshalOpts) :
  marshal (VPtr None (Some elem)) opts = marshal elem opts.
Proof. reflexivity. Qed.

(* ================================================================== *)
(** ** Joining and indenting lines *)

Lemma fold_join (sep : string) (rest : list string) (e : string) :
  fold_left (fun b s => b ++ sep ++ s) rest e
  = e ++ fold_left (fun b s => b ++ sep ++ s) rest "".
Proof.
  revert e; induction rest as [|x rest IH]; intros e; simpl.
  - now rewrite append_empty_r.
  - rewrite IH, (IH (sep ++ x)), append_assoc. reflexivity.
Qed.

Lemma Join_cons (sep e : string) (rest : list string) :
  Join (e :: rest) sep
  = e ++ match rest with [] => "" | _ => sep ++ Join rest sep end.
Proof.
  unfold Join. destruct rest as [|x rest]; simpl.
  - now rewrite append_empty_r.
  - rewrite fold_join, (fold_join sep rest x), !append_assoc. reflexivity.
Qed.

Lemma Join_separated (lines : list string) :
  Join lines newline = separated lines.
Proof.
  induction lines as [|l lines IH]; [reflexivity|].
  rewrite Join_cons, IH. destruct lines; simpl.
  - now rewrite append_empty_r.
  - reflexivity.
Qed.

Lemma Join_newline_first (first : string) (rest : list string) :
  Join ((newline ++ first) :: rest) newline
  = newline ++ Join (first :: rest) newline.
Proof.
  rewrite !Join_cons, append_assoc. reflexivity.
Qed.

Lemma indent_each_nonneg (lines : list string) (level : Z) :
  0 <= level ->
  indent_each lines level
  = Returns (map (fun line => replicate (Z.to_nat level) tab ++ line) lines).
Proof.
  intros H; induction lines as [|l lines IH]; simpl; [reflexivity|].
  rewrite Repeat_nonneg by exact H. simpl. rewrite IH. reflexivity.
Qed.

(** The end of [marshalStruct] when no line was collected. *)
Lemma finish_no_lines (opts : marshalOpts) :
  marshalStruct_loop marshal [] opts [] = Returns (Some "", None).
Proof. reflexivity. Qed.

(** The end of [marshalStruct] at a level that is not negative. *)
Lemma finish_layout (opts : marshalOpts) (lines : list string) :
  0 <= indentLevel opts ->
  marshalStruct_loop marshal [] opts lines
  = Returns (Some (layout (Z.to_nat (indentLevel opts)) lines), None).
Proof.
  intros H. cbn [marshalStruct_loop]. unfold applyIndentation.
  rewrite indent_each_nonneg by exact H. cbn [bind].
  destruct lines as [|l lines]; [reflexivity|].
  cbn [map]. unfold layout.
  destruct (0 <? indentLevel opts) eqn:E; cbn [bind].
  - apply Z.ltb_lt in E.
    destruct (Z.to_nat (indentLevel opts)) as [|n] eqn:En; [lia|].
    rewrite Join_newline_first, Join_separated. reflexivity.
  - apply Z.ltb_ge in E.
    replace (indentLevel opts) with 0 by lia.
    rewrite Join_separated. reflexivity.
Qed.

(* ================================================================== *)
(** ** The loop over the fields *)

Lemma fieldLines_app (opts : marshalOpts) (fs gs : list field) :
  fieldLines opts (fs ++ gs) = (fieldLines opts fs ++ fieldLines opts gs)%list.
Proof.
  unfold fieldLines. now rewrite filter_app, map_app.
Qed.

Lemma abort_app (opts : marshalOpts) (fs gs : list field) :
  abort opts (fs ++ gs)
  = match abort opts fs with
    | Some x => Some x
    | None => abort opts gs
    end.
Proof.
  induction fs as [|f fs IH]; simpl; [reflexivity|].
  destruct (negb (Exported (fst f))); [exact IH|].
  destruct (verdict (fieldResult opts f)); auto.
Qed.

Lemma abort_none_all_encode (opts : marshalOpts) (fields : list field) :
  abort opts fields = None <-> all_encode opts fields.
Proof.
  unfold all_encode, encodes.
  induction fields as [|f fs IH]; simpl.
  - split; [constructor | reflexivity].
  - destruct (Exported (fst f)) eqn:Ex; simpl.
    + destruct (fieldResult opts f) as [p|[text [err|]]] eqn:R; cbn [verdict].
      * split; [discriminate|].
        intros H; inversion H as [|? ? H1 H2]; subst.
        destruct (H1 Ex) as [t Ht]; congruence.
      * split; [discriminate|].
        intros H; inversion H as [|? ? H1 H2]; subst.
        destruct (H1 Ex) as [t Ht]; congruence.
      * rewrite IH. split.
        -- intros H; constructor; [intros _; now exists text | exact H].
        -- intros H; now inversion H.
    + rewrite IH. split.
      * intros H; constructor; [congruence | exact H].
      * intros H; now inversion H.
Qed.

(** A loop that is left early returns what [abort] tells, whatever lines
    were collected. *)
Lemma loop_abort (opts : marshalOpts) (fields : list field) (x : outcome result) :
  abort opts fields = Some x ->
  forall lines, marshalStruct_loop marshal fields opts lines = x.
Proof.
  induction fields as [|[ft fv] fs IH]; simpl; [discriminate|].
  intros H lines.
  destruct (negb (Exported ft)); [now apply IH|].
  unfold fieldResult in H; simpl in H.
  destruct (marshal fv (fieldOpts opts ft)) as [p|[text [err|]]]; simpl in *.
  - now inversion H.
  - now inversion H.
  - destruct (Tag ft =? tagOmitField)%string; now apply IH.
Qed.

Lemma fieldLines_cons (opts : marshalOpts) (f : field) (fs : list field) :
  fieldLines opts (f :: fs)
  = if shown (fst f)
    then ("- **" ++ Name (fst f) ++ "**: " ++ string_of_bytes (fieldBytes opts f))
         :: fieldLines opts fs
    else fieldLines opts fs.
Proof.
  unfold fieldLines; cbn [filter]. now destruct (shown (fst f)).
Qed.

(** A loop that runs to its end has collected the lines of the shown
    fields, in order. *)
Lemma loop_complete (opts : marshalOpts) (fields : list field) :
  abort opts fields = None ->
  forall lines,
    marshalStruct_loop marshal fields opts lines
    = marshalStruct_loop marshal [] opts (lines ++ fieldLines opts fields)%list.
Proof.
  induction fields as [|[ft fv] fs IH]; intros H lines.
  - unfold fieldLines; simpl. now rewrite app_nil_r.
  - cbn [abort fst] in H. rewrite fieldLines_cons.
    unfold shown, fieldBytes. cbn [marshalStruct_loop fst].
    destruct (Exported ft); cbn [negb andb] in *.
    + destruct (fieldResult opts (ft, fv)) as [p|[text [err|]]] eqn:R;
        cbn [verdict] in H; try discriminate.
      unfold fieldResult in R; cbn [fst snd] in R. rewrite R.
      cbn [bind snd fst].
      destruct (Tag ft =? tagOmitField)%string; cbn [negb].
      * now apply IH.
      * rewrite (IH H). now rewrite <- app_assoc.
    + now apply IH.
Qed.

Lemma loop_all_encode (opts : marshalOpts) (fields : list field) :
  all_encode opts fields ->
  marshalStruct_loop marshal fields opts []
  = marshalStruct_loop marshal [] opts (fieldLines opts fields).
Proof.
  intros H. apply abort_none_all_encode in H.
  now rewrite (loop_complete opts fields H []).
Qed.

Lemma fieldLines_none_shown (opts : marshalOpts) (fields : list field) :
  Forall (fun f => shown (fst f) = false) fields -> fieldLines opts fields = [].
Proof.
  induction 1 as [|f fs Hf _ IH]; [reflexivity|].
  now rewrite fieldLines_cons, Hf.
Qed.

(* ================================================================== *)
(** ** Self-encoding values *)

(** C2. For every value whose type implements [Marshaler], [Marshal]
    returns exactly the bytes and the error of the value's own
    [MarshalMarkdown]; so does [marshal] under any traversal context, hence
    whatever the fields, their annotations, the indentation level and the
    redaction flag are. *)
Theorem self_encoding_bypasses_traversal (v : value) (r : result) :
  MarshalMarkdown v = Some r ->
  Marshal v = Returns r /\ forall opts, marshal v opts = Returns r.
Proof.
  intros H; split; [|intros opts]; now apply marshal_self.
Qed.

Lemma self_encoding_bypasses_traversal_witness :
  Marshal selfEncodingAccount = Returns (Some "account #7", None) /\
  forall opts, marshal selfEncodingAccount opts = Returns (Some "account #7", None).
Proof.
  apply (self_encoding_bypasses_traversal selfEncodingAccount); reflexivity.
Defined.

Example self_encoding_field_is_verbatim :
  Marshal (VStruct None
    [({| reflect.Name := "Account"; reflect.Exported := true;
         reflect.Tag := "obfuscate" |}, selfEncodingAccount)])
  = Returns (Some "- **Account**: account #7", None).
Proof. reflexivity. Qed.

(* ================================================================== *)
(** ** Pointers *)

(** C5, as the code has it. For every pointer value whose type does not
    implement [Marshaler]: a nil pointer is encoded as the four bytes
    [null], with no error; any other pointer is encoded as the value it
    points to, under the same traversal context. *)
Theorem pointer_is_dereferenced (opts : marshalOpts) :
  marshal (VPtr None None) opts = Returns (Some "null", None) /\
  len "null" = 4 /\
  forall elem, marshal (VPtr None (Some elem)) opts = marshal elem opts.
Proof.
  repeat split.
Qed.

(** C5 fails for a nil pointer whose type implements [Marshaler]: the
    custom encoder is called and its text is returned, not [null]. *)
Lemma nil_pointer_with_encoder_counterexample :
  let p := VPtr (Some (Some "custom", None)) None in
  Kind p = reflect.Ptr /\
  Marshal p = Returns (Some "custom", None) /\
  Marshal p <> Returns (Some "null", None).
Proof.
  repeat split. discriminate.
Qed.

(* ================================================================== *)
(** ** Omitted fields *)

(** C3, as the code has it. For every struct that is not self-encoding,
    an exported field annotated omit that the loop reaches (every exported
    field before it encodes without error) is encoded: if that returns an
    error, the struct's encoding returns this error and nil bytes; if it
    returns without error, the struct is encoded as if the field were not
    there. *)
Theorem omitted_field_is_still_encoded
    (opts : marshalOpts) (before after : list field)
    (fieldType : StructField) (fieldValue : value) :
  Exported fieldType = true ->
  Tag fieldType = tagOmitField ->
  all_encode opts before ->
  (forall text err,
      marshal fieldValue (fieldOpts opts fieldType) = Returns (text, Some err) ->
      marshal (VStruct None (before ++ (fieldType, fieldValue) :: after)) opts
      = Returns (None, Some err)) /\
  (forall text,
      marshal fieldValue (fieldOpts opts fieldType) = Returns (text, None) ->
      marshal (VStruct None (before ++ (fieldType, fieldValue) :: after)) opts
      = marshal (VStruct None (before ++ after)) opts).
Proof.
  intros Hex Htag Hbefore.
  apply abort_none_all_encode in Hbefore.
  split.
  - intros text err H. rewrite marshal_struct. apply loop_abort.
    rewrite abort_app, Hbefore. cbn [abort fst].
    rewrite Hex. cbn [negb]. unfold fieldResult; cbn [fst snd].
    now rewrite H.
  - intros text H. rewrite !marshal_struct.
    assert (Hab : abort opts (before ++ (fieldType, fieldValue) :: after)
                  = abort opts (before ++ after)).
    { rewrite !abort_app, Hbefore. cbn [abort fst].
      rewrite Hex. cbn [negb]. unfold fieldResult; cbn [fst snd].
      now rewrite H. }
    destruct (abort opts (before ++ after)) as [x|] eqn:E.
    + rewrite (loop_abort _ _ _ Hab), (loop_abort _ _ _ E). reflexivity.
    + rewrite (loop_complete _ _ Hab), (loop_complete _ _ E).
      rewrite !fieldLines_app, fieldLines_cons.
      unfold shown; cbn [fst]. rewrite Htag, String.eqb_refl, andb_false_r.
      reflexivity.
Qed.

Lemma omitted_field_is_still_encoded_witness :
  Marshal (VStruct None [(plain "Visible", VString None true "y");
                         (omitted "Secret", failing)])
  = Returns (None, Some (Err "boom")) /\
  Marshal (VStruct None [(plain "Visible", VString None true "y");
                         (omitted "Secret", VString None true "x")])
  = Marshal (VStruct None [(plain "Visible", VString None true "y")]).
Proof.
  assert (Hvisible : all_encode top [(plain "Visible", VString None true "y")]).
  { constructor; [intros _; exists (Some "y"); reflexivity | constructor]. }
  split.
  - apply (proj1 (omitted_field_is_still_encoded top
                    [(plain "Visible", VString None true "y")] []
                    (omitted "Secret") failing
                    eq_refl eq_refl Hvisible) None (Err "boom")).
    reflexivity.
  - apply (proj2 (omitted_field_is_still_encoded top
                    [(plain "Visible", VString None true "y")] []
                    (omitted "Secret") (VString None true "x")
                    eq_refl eq_refl Hvisible) (Some "x")).
    reflexivity.
Defined.

(** The specification's second scenario. *)
Example omitted_field_scenario :
  Marshal (VStruct None [(omitted "Secret", VString None true "x");
                         (plain "Visible", VString None true "y")])
  = Returns (Some "- **Visible**: y", None).
Proof. reflexivity. Qed.

(** C3 fails for a field that is not exported: it is skipped before any
    encoding, so a failing encoder in it goes unnoticed. It fails after a
    field that returned an error: the loop is left with that earlier error
    and the omitted field is never encoded. And it fails in a self-encoding
    struct, whose fields are not looked at. *)
Lemma omitted_field_counterexample :
  let hidden := {| reflect.Name := "secret"; reflect.Exported := false;
                   reflect.Tag := "-" |} in
  let early := VOther (Some (None, Some (Err "early"))) "0" in
  (forall opts, marshal failing opts = Returns (None, Some (Err "boom"))) /\
  Marshal (VStruct None [(hidden, failing)]) = Returns (Some "", None) /\
  Marshal (VStruct None [(plain "First", early); (omitted "Secret", failing)])
  = Returns (None, Some (Err "early")) /\
  Marshal (VStruct None [(plain "First", early); (omitted "Secret", failing)])
  <> Returns (None, Some (Err "boom")) /\
  Marshal (VStruct (Some (Some "custom", None)) [(omitted "Secret", failing)])
  = Returns (Some "custom", None).
Proof.
  repeat split. discriminate.
Qed.

(* ================================================================== *)
(** ** Structs without shown fields *)

(** C9, as the code has it. For every struct that is not self-encoding and
    has no shown field (every field is unexported or annotated omit, or
    there is no field), whose exported fields all encode without error:
    the encoding is the empty string, with no error. *)
Theorem struct_without_shown_fields (opts : marshalOpts) (fields : list field) :
  Forall (fun f => shown (fst f) = false) fields ->
  all_encode opts fields ->
  marshal (VStruct None fields) opts = Returns (Some "", None).
Proof.
  intros Hshown Henc.
  rewrite marshal_struct, (loop_all_encode _ _ Henc).
  rewrite (fieldLines_none_shown _ _ Hshown). apply finish_no_lines.
Qed.

Lemma struct_without_shown_fields_witness :
  Marshal (VStruct None
    [(omitted "Secret", VString None true "x");
     ({| reflect.Name := "hidden"; reflect.Exported := false; reflect.Tag := "" |},
      Nil)])
  = Returns (Some "", None).
Proof.
  apply (struct_without_shown_fields top).
  - repeat constructor.
  - constructor; [intros _; now exists (Some "x")|].
    constructor; [discriminate | constructor].
Defined.

(** C9 fails when an omitted field does not encode: the error of its
    encoder is returned, with nil bytes. It also fails for a self-encoding
    struct, which is encoded as its encoder says. *)
Lemma struct_without_shown_fields_counterexample :
  let v := VStruct None [(omitted "Secret", failing)] in
  let w := VStruct (Some (Some "custom", None)) [] in
  Forall (fun f => shown (fst f) = false) [(omitted "Secret", failing)] /\
  Marshal v = Returns (None, Some (Err "boom")) /\
  Marshal v <> Returns (Some "", None) /\
  Marshal w = Returns (Some "custom", None) /\
  Marshal w <> Returns (Some "", None).
Proof.
  repeat split; [repeat constructor | discriminate | discriminate].
Qed.

(* ================================================================== *)
(** ** The layout of a struct *)

(** C4, as the code has it. For every struct that is not self-encoding,
    encoded at an indentation level [d >= 0], whose exported fields all
    encode without error: the text has one line [- **FieldName**: value]
    per exported field not annotated omit, every line prefixed with [d]
    tabs, the lines separated by single newlines with none at the end,
    and one newline before the first line when [d > 0] and there is a
    line. *)
Theorem struct_layout (opts : marshalOpts) (fields : list field) :
  0 <= indentLevel opts ->
  all_encode opts fields ->
  marshal (VStruct None fields) opts
  = Returns (Some (layout (Z.to_nat (indentLevel opts))
                          (fieldLines opts fields)), None).
Proof.
  intros Hd Henc.
  rewrite marshal_struct, (loop_all_encode _ _ Henc).
  now apply finish_layout.
Qed.

Lemma struct_layout_witness :
  marshal inner {| indentLevel := 1; obfuscate_ := false |}
  = Returns (Some (newline ++ tab ++ "- **X**: 1"), None).
Proof.
  apply (struct_layout {| indentLevel := 1; obfuscate_ := false |}
           [(plain "X", VOther None "1")]).
  - simpl; lia.
  - constructor; [intros _; now exists (Some "1") | constructor].
Defined.

(** The specification's first, third and fourth scenarios. *)
Example two_fields_scenario :
  Marshal (VStruct None
    [(plain "Name", VString None true "Alice");
     ({| reflect.Name := "Token"; reflect.Exported := true;
         reflect.Tag := "obfuscate" |}, VString None true "abcdef1234")])
  = Returns (Some ("- **Name**: Alice" ++ newline ++ "- **Token**: ******1234"),
             None).
Proof. reflexivity. Qed.

Example nil_pointer_field_scenario :
  Marshal (VStruct None [(plain "FieldName", VPtr None None)])
  = Returns (Some "- **FieldName**: null", None).
Proof. reflexivity. Qed.

Example nested_struct_scenario :
  Marshal (VStruct None [(plain "Inner", inner)])
  = Returns (Some ("- **Inner**: " ++ newline ++ tab ++ "- **X**: 1"), None).
Proof. reflexivity. Qed.

(** C4 fails for a struct whose type implements [Marshaler]: its text is
    the custom encoder's, whatever its fields are. And a struct with a
    field that does not encode has no text at all. *)
Lemma struct_layout_counterexample :
  let fields := [(plain "Name", VString None true "Alice")] in
  let v := VStruct (Some (Some "Alice!", None)) fields in
  all_encode top fields /\
  Marshal v = Returns (Some "Alice!", None) /\
  Marshal v <> Returns (Some (layout 0 (fieldLines top fields)), None) /\
  Marshal (VStruct None ((plain "Bad", failing) :: fields))
  = Returns (None, Some (Err "boom")).
Proof.
  repeat split.
  - constructor; [intros _; now exists (Some "Alice") | constructor].
  - discriminate.
Qed.

(* ================================================================== *)
(** ** The redaction flag and failures *)

Lemma obfuscate_returns (str : string) : exists masked, obfuscate str = Returns masked.
Proof.
  destruct (Z.le_gt_cases (len str) 4) as [H|H].
  - exists str. apply Z.leb_le in H.
    unfold obfuscate. cbv zeta. now rewrite H.
  - eexists. apply obfuscate_long. lia.
Qed.

Lemma marshalStr_exact (mm : option result) (s : string) (opts : marshalOpts) :
  exists text, marshalStr (VString mm true s) opts = Returns (Some text, None).
Proof.
  unfold marshalStr. destruct (obfuscate_ opts).
  - destruct (obfuscate_returns s) as [masked H]. rewrite H. now exists masked.
  - now exists s.
Qed.

Lemma indent_each_negative (lines : list string) (level : Z) :
  level < 0 -> lines <> [] ->
  indent_each lines level = Panics NegativeRepeatCount.
Proof.
  intros H Hne. destruct lines as [|l lines]; [congruence|].
  cbn [indent_each]. unfold Repeat.
  apply Z.ltb_lt in H. now rewrite H.
Qed.

(** The end of [marshalStruct] either panics, at a negative level with a
    line to indent, or returns a text without error. *)
Lemma finish_verdict (opts : marshalOpts) (lines : list string) :
  verdict (marshalStruct_loop marshal [] opts lines)
  = if (indentLevel opts <? 0) && negb (Nat.eqb (List.length lines) 0)
    then Some (Panics NegativeRepeatCount) else None.
Proof.
  destruct (indentLevel opts <? 0) eqn:E.
  - apply Z.ltb_lt in E. destruct lines as [|l lines]; [reflexivity|].
    cbn [marshalStruct_loop]. unfold applyIndentation.
    rewrite indent_each_negative by (auto; discriminate). reflexivity.
  - apply Z.ltb_ge in E. now rewrite finish_layout.
Qed.

Lemma length_fieldLines (o1 o2 : marshalOpts) (fields : list field) :
  List.length (fieldLines o1 fields) = List.length (fieldLines o2 fields).
Proof.
  unfold fieldLines. now rewrite !length_map.
Qed.

Lemma indentLevel_fieldOpts (o1 o2 : marshalOpts) (t1 t2 : StructField) :
  indentLevel o1 = indentLevel o2 ->
  indentLevel (fieldOpts o1 t1) = indentLevel (fieldOpts o2 t2).
Proof.
  intros H. unfold fieldOpts, withIncrementedIndentLevel.
  destruct (Tag t1 =? tagObfuscateField)%string,
           (Tag t2 =? tagObfuscateField)%string; simpl; now rewrite H.
Qed.

(** Whether and how an encoding fails does not depend on the redaction
    flag. *)
Lemma verdict_ignores_flag (v : value) :
  forall o1 o2,
    indentLevel o1 = indentLevel o2 ->
    verdict (marshal v o1) = verdict (marshal v o2).
Proof.
  induction v as [|mm exact s|mm fields IH|mm|mm elem IH|mm text]
    using value_ind; intros o1 o2 Hd.
  - reflexivity.
  - destruct mm as [r|]; [reflexivity|]. destruct exact; [|reflexivity].
    change (marshal (VString None true s) o1)
      with (marshalStr (VString None true s) o1).
    change (marshal (VString None true s) o2)
      with (marshalStr (VString None true s) o2).
    destruct (marshalStr_exact None s o1) as [t1 H1].
    destruct (marshalStr_exact None s o2) as [t2 H2].
    now rewrite H1, H2.
  - destruct mm as [r|]; [reflexivity|]. rewrite !marshal_struct.
    assert (Hab : abort o1 fields = abort o2 fields).
    { induction IH as [|f fs Hf _ IHfs]; [reflexivity|].
      cbn [abort]. destruct (negb (Exported (fst f))); [exact IHfs|].
      unfold fieldResult.
      rewrite (Hf (fieldOpts o1 (fst f)) (fieldOpts o2 (fst f)))
        by now apply indentLevel_fieldOpts.
      now rewrite IHfs. }
    destruct (abort o2 fields) as [x|] eqn:E.
    + now rewrite (loop_abort _ _ _ Hab), (loop_abort _ _ _ E).
    + rewrite (loop_complete _ _ Hab), (loop_complete _ _ E).
      cbn [app]. rewrite !finish_verdict, Hd.
      now rewrite (length_fieldLines o1 o2).
  - reflexivity.
  - destruct mm as [r|]; [reflexivity|]. rewrite !marshal_elem. now apply IH.
  - destruct mm as [r|]; reflexivity.
Qed.

(** Two field lists that leave the loop alike and yield the same lines are
    encoded alike. *)
Lemma loop_determined (opts : marshalOpts) (fs gs : list field) :
  abort opts fs = abort opts gs ->
  fieldLines opts fs = fieldLines opts gs ->
  forall lines,
    marshalStruct_loop marshal fs opts lines
    = marshalStruct_loop marshal gs opts lines.
Proof.
  intros Hab Hlines lines.
  destruct (abort opts gs) as [x|] eqn:E.
  - now rewrite (loop_abort _ _ _ Hab), (loop_abort _ _ _ E).
  - now rewrite (loop_complete _ _ Hab), (loop_complete _ _ E), Hlines.
Qed.

Lemma Exported_annotate (fieldType : StructField) (tag : string) :
  Exported (annotate fieldType tag) = Exported fieldType.
Proof. reflexivity. Qed.

(** Annotating a field obfuscate does not change whether and how the loop
    is left early. *)
Lemma abort_annotate (opts : marshalOpts) (before after : list field)
    (fieldType : StructField) (fieldValue : value) :
  abort opts (before ++ (annotate fieldType tagObfuscateField, fieldValue) :: after)
  = abort opts (before ++ (fieldType, fieldValue) :: after).
Proof.
  rewrite !abort_app. destruct (abort opts before); [reflexivity|].
  cbn [abort fst]. rewrite Exported_annotate.
  destruct (negb (Exported fieldType)); [reflexivity|].
  unfold fieldResult; cbn [fst snd].
  rewrite (verdict_ignores_flag fieldValue
             (fieldOpts opts (annotate fieldType tagObfuscateField))
             (fieldOpts opts fieldType))
    by now apply indentLevel_fieldOpts.
  reflexivity.
Qed.

(* ================================================================== *)
(** ** The redaction flag and sibling fields *)

(** C8. For every struct encoded at a level that is not negative,
    annotating one field obfuscate leaves the encoded text of every other
    field as it was: either the two encodings are the same outcome (the
    struct is self-encoding, or a field fails in both), or both return a
    text, laid out from the same lines for the fields before the annotated
    one and the same lines for the fields after it. *)
Theorem obfuscate_flag_is_not_sticky
    (mm : option result) (opts : marshalOpts) (before after : list field)
    (fieldType : StructField) (fieldValue : value) :
  0 <= indentLevel opts ->
  let unmarked := (before ++ (fieldType, fieldValue) :: after)%list in
  let marked :=
    (before ++ (annotate fieldType tagObfuscateField, fieldValue) :: after)%list
  in
  let d := Z.to_nat (indentLevel opts) in
  marshal (VStruct mm marked) opts = marshal (VStruct mm unmarked) opts \/
  (marshal (VStruct mm unmarked) opts
   = Returns (Some (layout d (fieldLines opts before
                              ++ fieldLines opts [(fieldType, fieldValue)]
                              ++ fieldLines opts after)%list), None) /\
   marshal (VStruct mm marked) opts
   = Returns (Some (layout d (fieldLines opts before
                              ++ fieldLines opts
                                   [(annotate fieldType tagObfuscateField,
                                     fieldValue)]
                              ++ fieldLines opts after)%list), None)).
Proof.
  intros Hd unmarked marked d.
  destruct mm as [r|]; [left; reflexivity|].
  pose proof (abort_annotate opts before after fieldType fieldValue) as Hab.
  fold marked unmarked in Hab.
  rewrite !marshal_struct.
  destruct (abort opts unmarked) as [x|] eqn:E.
  - left. now rewrite (loop_abort _ _ _ Hab), (loop_abort _ _ _ E).
  - right.
    rewrite (loop_complete _ _ Hab), (loop_complete _ _ E). cbn [app].
    rewrite !finish_layout by exact Hd.
    unfold unmarked, marked.
    rewrite !fieldLines_app.
    change ((fieldType, fieldValue) :: after)
      with ([(fieldType, fieldValue)] ++ after)%list.
    change ((annotate fieldType tagObfuscateField, fieldValue) :: after)
      with ([(annotate fieldType tagObfuscateField, fieldValue)] ++ after)%list.
    rewrite !fieldLines_app. split; reflexivity.
Qed.

Lemma obfuscate_flag_is_not_sticky_witness :
  let before := [(plain "Name", VString None true "Alice")] in
  let after := [(plain "Mail", VString None true "alice@example.org")] in
  let token := VString None true "abcdef1234" in
  marshal (VStruct None
             (before ++ (annotate (plain "Token") tagObfuscateField, token)
                     :: after)%list) top
  = marshal (VStruct None (before ++ (plain "Token", token) :: after)%list) top \/
  (marshal (VStruct None (before ++ (plain "Token", token) :: after)%list) top
   = Returns (Some (layout 0 (fieldLines top before
                              ++ fieldLines top [(plain "Token", token)]
                              ++ fieldLines top after)%list), None) /\
   marshal (VStruct None
              (before ++ (annotate (plain "Token") tagObfuscateField, token)
                      :: after)%list) top
   = Returns (Some (layout 0 (fieldLines top before
                              ++ fieldLines top
                                   [(annotate (plain "Token") tagObfuscateField,
                                     token)]
                              ++ fieldLines top after)%list), None)).
Proof.
  intros before after token.
  apply (obfuscate_flag_is_not_sticky None top before after
           (plain "Token") token).
  simpl; lia.
Defined.

Example obfuscated_field_between_siblings :
  Marshal (VStruct None
    [(plain "Name", VString None true "Alice");
     (annotate (plain "Token") tagObfuscateField, VString None true "abcdef1234");
     (plain "Mail", VString None true "alice@example.org")])
  = Returns (Some ("- **Name**: Alice" ++ newline
                   ++ "- **Token**: ******1234" ++ newline
                   ++ "- **Mail**: alice@example.org"), None).
Proof. reflexivity. Qed.

(* ================================================================== *)
(** ** The redaction flag and values that are not strings *)

(** C10, as the code has it. A value that reaches the fallback of
    [marshal] (it is not self-encoding and its kind is none of string,
    struct and pointer) is encoded as its default text whatever the
    redaction flag is; and a struct holding such a value in a field is
    encoded the same with the field annotated obfuscate and with the
    annotation absent. *)
Theorem fallback_ignores_obfuscate
    (mm : option result) (opts : marshalOpts) (before after : list field)
    (fieldType : StructField) (text : string) :
  (forall o, marshal (VOther None text) o = Returns (Some text, None)) /\
  marshal (VStruct mm
             (before ++ (annotate fieldType tagObfuscateField, VOther None text)
                     :: after)%list) opts
  = marshal (VStruct mm
               (before ++ (annotate fieldType "", VOther None text) :: after)%list)
            opts.
Proof.
  split; [reflexivity|].
  destruct mm as [r|]; [reflexivity|].
  rewrite !marshal_struct. apply loop_determined.
  - rewrite !abort_app. destruct (abort opts before); reflexivity.
  - rewrite !fieldLines_app. f_equal.
    rewrite !fieldLines_cons. unfold shown; cbn [fst annotate Tag Exported].
    reflexivity.
Qed.

(** C10 fails for fields of pointer and struct kind: the flag is passed
    down to the value pointed to and to the fields of the struct, and
    masks the strings found there. And a self-encoding value of another
    kind is rendered by its encoder, not as its default text. *)
Lemma obfuscate_reaches_through_pointer_counterexample :
  let token := VPtr None (Some (VString None true "abcdef1234")) in
  let login := VStruct None [(plain "Password", VString None true "abcdef1234")] in
  let count := VOther (Some (Some "seven", None)) "7" in
  Kind token = reflect.Ptr /\
  Marshal (VStruct None [(annotate (plain "Token") tagObfuscateField, token)])
  = Returns (Some "- **Token**: ******1234", None) /\
  Marshal (VStruct None [(plain "Token", token)])
  = Returns (Some "- **Token**: abcdef1234", None) /\
  Kind login = reflect.Struct /\
  Marshal (VStruct None [(annotate (plain "Login") tagObfuscateField, login)])
  = Returns (Some ("- **Login**: " ++ newline ++ tab
                   ++ "- **Password**: ******1234"), None) /\
  Marshal (VStruct None [(plain "Login", login)])
  = Returns (Some ("- **Login**: " ++ newline ++ tab
                   ++ "- **Password**: abcdef1234"), None) /\
  Kind count = reflect.Other /\ Sprint count = "7" /\
  Marshal (VStruct None [(annotate (plain "Count") tagObfuscateField, count)])
  = Returns (Some "- **Count**: seven", None).
Proof.
  repeat split.
Qed.

(** An integer field annotated obfuscate, as in the example of the
    package documentation, is printed in full. *)
Example obfuscated_integer_field :
  Marshal (VStruct None
    [(annotate (plain "Field") tagObfuscateField, VOther None "1234567890")])
  = Returns (Some "- **Field**: 1234567890", None).
Proof. reflexivity. Qed.

(* ================================================================== *)
(** ** Errors *)

Lemma abort_error_split (opts : marshalOpts) (fields : list field)
    (text : bytes) (err : error) :
  abort opts fields = Some (Returns (text, Some err)) ->
  text = None /\
  exists before fieldType fieldValue after text',
    fields = (before ++ (fieldType, fieldValue) :: after)%list /\
    all_encode opts before /\
    Exported fieldType = true /\
    marshal fieldValue (fieldOpts opts fieldType) = Returns (text', Some err).
Proof.
  induction fields as [|[ft fv] fs IH]; cbn [abort fst]; [discriminate|].
  destruct (Exported ft) eqn:Ex; cbn [negb].
  - unfold fieldResult at 1; cbn [fst snd].
    destruct (marshal fv (fieldOpts opts ft)) as [p|[t [e|]]] eqn:R;
      cbn [verdict]; intros H.
    + discriminate.
    + inversion H; subst. split; [reflexivity|].
      exists [], ft, fv, fs, t. repeat split; auto. constructor.
    + destruct (IH H) as [Ht (before & ft' & fv' & after & t' & Hfs & Hb & He & Hr)].
      split; [exact Ht|].
      exists ((ft, fv) :: before), ft', fv', after, t'. subst fs.
      repeat split; auto.
      constructor; [|exact Hb]. intros _. exists t. exact R.
  - intros H.
    destruct (IH H) as [Ht (before & ft' & fv' & after & t' & Hfs & Hb & He & Hr)].
    split; [exact Ht|].
    exists ((ft, fv) :: before), ft', fv', after, t'. subst fs.
    repeat split; auto.
    constructor; [|exact Hb]. cbn [fst]. congruence.
Qed.

Lemma finish_no_error (opts : marshalOpts) (lines : list string)
    (text : bytes) (err : error) :
  marshalStruct_loop marshal [] opts lines <> Returns (text, Some err).
Proof.
  intros H. pose proof (finish_verdict opts lines) as Hv. rewrite H in Hv.
  cbn [verdict] in Hv.
  destruct ((indentLevel opts <? 0) && negb (Nat.eqb (List.length lines) 0));
    discriminate.
Qed.

(** C6, as the code has it. An encoding returns an error exactly when the
    traversal reaches a self-encoding value whose encoder returns that
    error, and it returns this very error. The bytes returned with it are
    nil when a struct field lies between the value encoded and the failing
    encoder; otherwise (the failing encoder is the value's own, or is
    reached through pointers only) they are the bytes the encoder
    returned with its error. *)
Theorem error_is_custom_failure (v : value) :
  forall opts text err,
    marshal v opts = Returns (text, Some err) <-> custom_failure opts v text err.
Proof.
  intros opts text err; split.
  - revert opts text err.
    induction v as [|mm exact s|mm fields IH|mm|mm elem IH|mm t]
      using value_ind; intros opts text err H.
    + discriminate.
    + destruct mm as [r|].
      * apply failure_self. simpl in *. now inversion H.
      * destruct exact; [|discriminate].
        change (marshal (VString None true s) opts)
          with (marshalStr (VString None true s) opts) in H.
        destruct (marshalStr_exact None s opts) as [t Ht]. congruence.
    + destruct mm as [r|].
      * apply failure_self. simpl in *. now inversion H.
      * rewrite marshal_struct in H.
        destruct (abort opts fields) as [x|] eqn:E.
        -- rewrite (loop_abort _ _ _ E) in H. subst x.
           destruct (abort_error_split _ _ _ _ E)
             as [Ht (before & ft & fv & after & t' & Hfs & Hb & He & Hr)].
           subst text fields.
           apply failure_field with (text := t'); auto.
           rewrite Forall_forall in IH.
           apply (IH (ft, fv)); [|exact Hr].
           apply in_or_app. right. now left.
        -- rewrite (loop_complete _ _ E) in H.
           now apply finish_no_error in H.
    + destruct mm as [r|]; [|discriminate].
      apply failure_self. simpl in *. now inversion H.
    + destruct mm as [r|].
      * apply failure_self. simpl in *. now inversion H.
      * apply failure_elem. apply IH. exact H.
    + destruct mm as [r|]; [|discriminate].
      apply failure_self. simpl in *. now inversion H.
  - induction 1 as [opts v text err H
                   |opts elem text err _ IH
                   |opts before ft fv after text err Hb He _ IH].
    + now apply marshal_self.
    + rewrite marshal_elem. exact IH.
    + rewrite marshal_struct. apply loop_abort.
      apply abort_none_all_encode in Hb.
      rewrite abort_app, Hb. cbn [abort fst]. rewrite He. cbn [negb].
      unfold fieldResult; cbn [fst snd]. now rewrite IH.
Qed.

Lemma error_is_custom_failure_witness :
  Marshal (VStruct None [(plain "Visible", VString None true "y");
                         (plain "Handle", VPtr None (Some handle))])
  = Returns (None, Some (Err "boom")).
Proof.
  apply (proj2 (error_is_custom_failure _ top None (Err "boom"))).
  apply (failure_field top [(plain "Visible", VString None true "y")]
           (plain "Handle") (VPtr None (Some handle)) []
           (Some "partial") (Err "boom")).
  - constructor; [intros _; exists (Some "y"); reflexivity | constructor].
  - reflexivity.
  - apply failure_elem, failure_self. reflexivity.
Defined.

(** C6 fails when no struct field lies above the failing encoder: the
    bytes the encoder returned with its error are returned as they are. *)
Lemma error_with_bytes_counterexample :
  MarshalMarkdown handle = Some (Some "partial", Some (Err "boom")) /\
  Marshal (VPtr None (Some handle)) = Returns (Some "partial", Some (Err "boom")) /\
  Marshal (VPtr None (Some handle)) <> Returns (None, Some (Err "boom")).
Proof.
  repeat split. discriminate.
Qed.

(* ================================================================== *)
(** ** Panics *)

(** C7 does not hold of the code. [Marshal] panics on the nil interface,
    whose [reflect.Type] is nil; on a struct with an exported field of
    interface type that holds nil; on a pointer to such an interface; and
    on a value of a defined string type, which is of kind string but is
    not a [string]. *)
Theorem Marshal_panics :
  Marshal Nil = Panics NilDereference /\
  Marshal (VStruct None [(plain "Payload", Nil)]) = Panics NilDereference /\
  Marshal (VPtr None (Some Nil)) = Panics NilDereference /\
  Marshal (VString None false "draft") = Panics InterfaceConversion.
Proof.
  repeat split.
Qed.

Lemma wrap_int_succ (d : Z) : 0 <= d < max_int -> wrap_int (d + 1) = d + 1.
Proof.
  unfold max_int, wrap_int. intros H.
  rewrite Z.mod_small by lia. lia.
Qed.

Lemma indentLevel_fieldOpts_succ (opts : marshalOpts) (fieldType : StructField) :
  0 <= indentLevel opts < max_int ->
  indentLevel (fieldOpts opts fieldType) = indentLevel opts + 1.
Proof.
  intros H. unfold fieldOpts, withIncrementedIndentLevel.
  destruct (Tag fieldType =? tagObfuscateField)%string; simpl;
    now apply wrap_int_succ.
Qed.

(* ================================================================== *)
(** ** Further properties of redaction *)

Lemma obfuscate_length (s masked : string) :
  obfuscate s = Returns masked -> String.length masked = String.length s.
Proof.
  destruct (Z.le_gt_cases (len s) 4) as [H|H].
  - unfold obfuscate. cbv zeta. apply Z.leb_le in H. rewrite H.
    intros E; now inversion E.
  - rewrite obfuscate_long by lia. intros E; inversion E; subst.
    rewrite length_append, length_replicate_char, length_drop.
    unfold len in H. lia.
Qed.

(** X1. [obfuscate] never panics, keeps the length of every string, and
    masking a masked string changes nothing. *)
Theorem obfuscate_idempotent (s : string) :
  exists masked,
    obfuscate s = Returns masked /\
    String.length masked = String.length s /\
    obfuscate masked = Returns masked.
Proof.
  destruct (obfuscate_returns s) as [masked H]. exists masked.
  pose proof (obfuscate_length _ _ H) as Hlen.
  repeat split; auto.
  destruct (Z.le_gt_cases (len s) 4) as [Hs|Hs].
  - unfold obfuscate in *. cbv zeta in *.
    apply Z.leb_le in Hs. rewrite Hs in H. inversion H; subst.
    now rewrite Hs.
  - rewrite obfuscate_long in H by lia. injection H as Hm.
    assert (Hm4 : 4 < len masked) by (unfold len in *; rewrite Hlen; lia).
    rewrite (obfuscate_long masked Hm4), Hlen.
    assert (Hd : drop (String.length s - 4) masked
                 = drop (String.length s - 4) s).
    { rewrite <- Hm.
      rewrite <- (length_replicate_char (String.length s - 4) "*"%char) at 1.
      apply drop_append_length. }
    rewrite Hd. now rewrite Hm.
Qed.

(** Two fields that agree on what the loop reads of them can stand for one
    another. *)
Lemma loop_same_field (opts : marshalOpts) (before after : list field)
    (f g : field) :
  Name (fst f) = Name (fst g) ->
  Exported (fst f) = Exported (fst g) ->
  (Tag (fst f) =? tagOmitField)%string = (Tag (fst g) =? tagOmitField)%string ->
  (Exported (fst f) = true -> fieldResult opts f = fieldResult opts g) ->
  forall lines,
    marshalStruct_loop marshal (before ++ f :: after) opts lines
    = marshalStruct_loop marshal (before ++ g :: after) opts lines.
Proof.
  intros Hname Hex Htag Hres. apply loop_determined.
  - rewrite !abort_app. destruct (abort opts before); [reflexivity|].
    cbn [abort]. rewrite <- Hex.
    destruct (Exported (fst f)); cbn [negb]; [|reflexivity].
    now rewrite Hres.
  - rewrite !fieldLines_app. f_equal. rewrite !fieldLines_cons.
    unfold shown, fieldBytes. rewrite <- Hex, <- Htag, <- Hname.
    destruct (Exported (fst f)); cbn [andb]; [|reflexivity].
    now rewrite Hres.
Qed.

(** X2. What a struct shows of a string field annotated obfuscate depends
    only on the string's length and last four bytes: two strings of more
    than four bytes with the same length and the same last four bytes give
    the same encoding of the struct. *)
Theorem masked_field_shows_last_four_only
    (mm : option result) (opts : marshalOpts) (before after : list field)
    (fieldType : StructField) (s1 s2 : string) :
  Tag fieldType = tagObfuscateField ->
  4 < len s1 ->
  len s1 = len s2 ->
  last4 s1 = last4 s2 ->
  marshal (VStruct mm (before ++ (fieldType, VString None true s1) :: after)) opts
  = marshal (VStruct mm (before ++ (fieldType, VString None true s2) :: after)) opts.
Proof.
  intros Htag H1 Hlen Hlast.
  destruct mm as [r|]; [reflexivity|].
  rewrite !marshal_struct. apply loop_same_field; try reflexivity.
  intros _. unfold fieldResult; cbn [fst snd].
  change (marshalStr (VString None true s1) (fieldOpts opts fieldType)
          = marshalStr (VString None true s2) (fieldOpts opts fieldType)).
  unfold marshalStr, fieldOpts. rewrite Htag, String.eqb_refl. cbn [obfuscate_].
  rewrite !obfuscate_long by lia.
  unfold last4 in Hlast. unfold len in Hlen.
  apply Nat2Z.inj in Hlen. rewrite Hlast, Hlen. reflexivity.
Qed.

Lemma masked_field_shows_last_four_only_witness :
  Marshal (VStruct None [(annotate (plain "Token") tagObfuscateField,
                          VString None true "abcdef1234")])
  = Marshal (VStruct None [(annotate (plain "Token") tagObfuscateField,
                            VString None true "zyxwvu1234")]).
Proof.
  apply (masked_field_shows_last_four_only None top [] []
           (annotate (plain "Token") tagObfuscateField)
           "abcdef1234" "zyxwvu1234");
    [reflexivity | reflexivity | reflexivity | reflexivity].
Defined.

(** X3. Once the redaction flag is set it stays set in every recursive
    call, and under a set flag a field is encoded the same with and
    without the annotation obfuscate. *)
Theorem redaction_is_inherited
    (mm : option result) (opts : marshalOpts) (before after : list field)
    (fieldType : StructField) (fieldValue : value) :
  obfuscate_ opts = true ->
  (forall anyField, obfuscate_ (fieldOpts opts anyField) = true) /\
  marshal (VStruct mm (before ++ (annotate fieldType tagObfuscateField, fieldValue)
                              :: after)%list) opts
  = marshal (VStruct mm (before ++ (annotate fieldType "", fieldValue)
                                :: after)%list) opts.
Proof.
  intros Hflag. split.
  - intros anyField. unfold fieldOpts, withIncrementedIndentLevel.
    destruct (Tag anyField =? tagObfuscateField)%string; [reflexivity | exact Hflag].
  - destruct mm as [r|]; [reflexivity|].
    rewrite !marshal_struct. apply loop_same_field; try reflexivity.
    intros _. unfold fieldResult, fieldOpts, withIncrementedIndentLevel.
    cbn [fst snd annotate Tag]. cbn [String.eqb]. rewrite Hflag.
    reflexivity.
Qed.

Lemma redaction_is_inherited_witness :
  marshal (VStruct None [(annotate (plain "Password") tagObfuscateField,
                          VString None true "abcdef1234")]) (options 1 true)
  = marshal (VStruct None [(annotate (plain "Password") "",
                            VString None true "abcdef1234")]) (options 1 true).
Proof.
  apply (proj2 (redaction_is_inherited None (options 1 true) [] []
                  (plain "Password") (VString None true "abcdef1234") eq_refl)).
Defined.

(* ================================================================== *)
(** ** Further properties of structs and pointers *)

(** X4. In a struct whose type is not a [Marshaler] (so that no embedded
    field lends it a [MarshalMarkdown] method), a field that is not
    exported is skipped: the struct is encoded as a struct of a type that
    is not a [Marshaler] either and has the other fields only, whatever
    the skipped field holds (a nil interface, a failing encoder) and
    however it is annotated. *)
Theorem unexported_field_is_ignored
    (opts : marshalOpts) (before after : list field)
    (fieldType : StructField) (fieldValue : value) :
  Exported fieldType = false ->
  marshal (VStruct None (before ++ (fieldType, fieldValue) :: after)) opts
  = marshal (VStruct None (before ++ after)) opts.
Proof.
  intros Hex. rewrite !marshal_struct. apply loop_determined.
  - rewrite !abort_app. destruct (abort opts before); [reflexivity|].
    cbn [abort fst]. now rewrite Hex.
  - rewrite !fieldLines_app, fieldLines_cons. unfold shown; cbn [fst].
    now rewrite Hex.
Qed.

Lemma unexported_field_is_ignored_witness :
  Marshal (VStruct None
    [(plain "Name", VString None true "Alice");
     ({| reflect.Name := "secret"; reflect.Exported := false;
         reflect.Tag := "obfuscate" |}, Nil);
     (plain "Mail", VString None true "alice@example.org")])
  = Marshal (VStruct None
      [(plain "Name", VString None true "Alice");
       (plain "Mail", VString None true "alice@example.org")]).
Proof.
  apply (unexported_field_is_ignored top
           [(plain "Name", VString None true "Alice")]
           [(plain "Mail", VString None true "alice@example.org")]
           {| reflect.Name := "secret"; reflect.Exported := false;
              reflect.Tag := "obfuscate" |} Nil).
  reflexivity.
Defined.

Lemma marshal_pointers (n : nat) (v : value) (opts : marshalOpts) :
  marshal (pointers n v) opts = marshal v opts.
Proof.
  induction n as [|n IH]; [reflexivity|].
  cbn [pointers]. now rewrite marshal_elem.
Qed.

(** X5. Pointers are transparent at any depth: a value behind any number
    of pointers (of types without encoder) is encoded as the value itself,
    under the same options, and a nil pointer behind any number of
    pointers is encoded as [null]. *)
Theorem pointers_are_transparent (n : nat) (opts : marshalOpts) :
  (forall v, marshal (pointers n v) opts = marshal v opts) /\
  marshal (pointers n (VPtr None None)) opts = Returns (Some "null", None).
Proof.
  split; [intros v; apply marshal_pointers | now rewrite marshal_pointers].
Qed.

(** X6. The first exported field whose encoding fails decides the outcome
    of the struct, whatever fields follow it: its panic is the struct's
    panic, and its error is returned with nil bytes, also when the failing
    encoder returned bytes with the error. *)
Theorem first_failure_decides
    (opts : marshalOpts) (before after : list field) (f : field) :
  all_encode opts before ->
  Exported (fst f) = true ->
  (forall p, fieldResult opts f = Panics p ->
             marshal (VStruct None (before ++ f :: after)) opts = Panics p) /\
  (forall text err,
      fieldResult opts f = Returns (text, Some err) ->
      marshal (VStruct None (before ++ f :: after)) opts
      = Returns (None, Some err)).
Proof.
  intros Hbefore Hex. apply abort_none_all_encode in Hbefore.
  split; [intros p H | intros text err H];
    rewrite marshal_struct; apply loop_abort;
    rewrite abort_app, Hbefore; cbn [abort]; rewrite Hex; cbn [negb];
    now rewrite H.
Qed.

Lemma first_failure_decides_witness :
  Marshal (VStruct None [(plain "Name", VString None true "Alice");
                         (plain "Payload", Nil);
                         (plain "Handle", handle)])
  = Panics NilDereference /\
  Marshal (VStruct None [(plain "Name", VString None true "Alice");
                         (plain "Handle", handle);
                         (plain "Payload", Nil)])
  = Returns (None, Some (Err "boom")).
Proof.
  assert (Hname : all_encode top [(plain "Name", VString None true "Alice")]).
  { constructor; [intros _; exists (Some "Alice"); reflexivity | constructor]. }
  split.
  - apply (proj1 (first_failure_decides top
                    [(plain "Name", VString None true "Alice")]
                    [(plain "Handle", handle)] (plain "Payload", Nil)
                    Hname eq_refl) NilDereference).
    reflexivity.
  - apply (proj2 (first_failure_decides top
                    [(plain "Name", VString None true "Alice")]
                    [(plain "Payload", Nil)] (plain "Handle", handle)
                    Hname eq_refl) (Some "partial") (Err "boom")).
    reflexivity.
Defined.

(** X7. A struct held by a field, directly or behind pointers, is laid out
    exactly one level deeper than the struct that holds it: pointers add
    no level. *)
Theorem nested_struct_is_one_level_deeper
    (opts : marshalOpts) (fieldType : StructField) (n : nat)
    (nested : list field) :
  0 <= indentLevel opts < max_int ->
  all_encode (fieldOpts opts fieldType) nested ->
  fieldResult opts (fieldType, pointers n (VStruct None nested))
  = Returns (Some (layout (S (Z.to_nat (indentLevel opts)))
                          (fieldLines (fieldOpts opts fieldType) nested)),
             None).
Proof.
  intros Hd Henc. unfold fieldResult; cbn [fst snd].
  rewrite marshal_pointers, marshal_struct, (loop_all_encode _ _ Henc).
  pose proof (indentLevel_fieldOpts_succ opts fieldType Hd) as Hsucc.
  rewrite finish_layout by lia.
  rewrite Hsucc. replace (Z.to_nat (indentLevel opts + 1))
    with (S (Z.to_nat (indentLevel opts))) by lia.
  reflexivity.
Qed.

Lemma nested_struct_is_one_level_deeper_witness :
  fieldResult (options 1 false)
    (plain "Inner", pointers 2 (VStruct None [(plain "X", VOther None "1")]))
  = Returns (Some (newline ++ tab ++ tab ++ "- **X**: 1"), None).
Proof.
  apply (nested_struct_is_one_level_deeper (options 1 false) (plain "Inner") 2
           [(plain "X", VOther None "1")]).
  - unfold max_int; simpl; lia.
  - constructor; [intros _; exists (Some "1"); reflexivity | constructor].
Defined.

(* ================================================================== *)
(** ** Indentation *)

Lemma length_indent_each (lines out : list string) (level : Z) :
  indent_each lines level = Returns out -> List.length out = List.length lines.
Proof.
  revert out; induction lines as [|l lines IH]; intros out; cbn [indent_each].
  - intros H; now inversion H.
  - destruct (Repeat tab level) as [p|tabs]; cbn [bind]; [discriminate|].
    destruct (indent_each lines level) as [p|rest]; cbn [bind]; [discriminate|].
    intros H; inversion H; subst. cbn [List.length]. now rewrite (IH rest).
Qed.

(** X8. [applyIndentation] panics when it has a line to indent at a
    negative level. Given no line it returns no line, at any level; at
    level 0 it returns the lines unchanged; and whenever it returns, it
    returns as many lines as it was given. *)
Theorem applyIndentation_edges (lines : list string) (level : Z) :
  (level < 0 -> lines <> [] ->
   applyIndentation lines level = Panics NegativeRepeatCount) /\
  applyIndentation [] level = Returns [] /\
  applyIndentation lines 0 = Returns lines /\
  (forall out, applyIndentation lines level = Returns out ->
               List.length out = List.length lines).
Proof.
  repeat split.
  - intros Hneg Hne. unfold applyIndentation.
    now rewrite indent_each_negative.
  - unfold applyIndentation. rewrite indent_each_nonneg by lia.
    cbn [bind Z.to_nat replicate].
    replace (map (fun line : string => "" ++ line) lines) with lines
      by (induction lines as [|l ls IH]; [reflexivity | cbn [map]; now rewrite <- IH]).
    destruct lines; reflexivity.
  - intros out H. unfold applyIndentation in H.
    destruct (indent_each lines level) as [p|indented] eqn:E; cbn [bind] in H;
      [discriminate|].
    apply length_indent_each in E. rewrite <- E.
    destruct indented as [|first rest]; [now inversion H|].
    destruct (0 <? level); now inversion H.
Qed.

Lemma applyIndentation_edges_witness :
  applyIndentation ["- **X**: 1"] (-1) = Panics NegativeRepeatCount /\
  List.length [newline ++ tab ++ "- **X**: 1"; tab ++ "- **Y**: 2"]
  = List.length ["- **X**: 1"; "- **Y**: 2"].
Proof.
  split.
  - apply (proj1 (applyIndentation_edges ["- **X**: 1"] (-1)));
      [lia | discriminate].
  - apply (proj2 (proj2 (proj2
             (applyIndentation_edges ["- **X**: 1"; "- **Y**: 2"] 1)))).
    reflexivity.
Defined.

(* ================================================================== *)
(** ** Redaction changes neither failures nor lengths *)

Lemma abort_ignores_flag (o1 o2 : marshalOpts) (fields : list field) :
  indentLevel o1 = indentLevel o2 -> abort o1 fields = abort o2 fields.
Proof.
  intros Hd. induction fields as [|f fs IH]; [reflexivity|].
  cbn [abort]. destruct (negb (Exported (fst f))); [exact IH|].
  unfold fieldResult.
  rewrite (verdict_ignores_flag (snd f) (fieldOpts o1 (fst f))
             (fieldOpts o2 (fst f)))
    by now apply indentLevel_fieldOpts.
  now rewrite IH.
Qed.

(** X9. Whether an encoding fails, and how, does not depend on the
    redaction flag: at the same level, a panic under one flag is the same
    panic under the other, and an error under one flag is returned under
    the other with the same bytes. *)
Theorem failure_ignores_redaction (v : value) :
  forall o1 o2,
    indentLevel o1 = indentLevel o2 ->
    (forall p, marshal v o1 = Panics p -> marshal v o2 = Panics p) /\
    (forall text err,
        marshal v o1 = Returns (text, Some err) ->
        marshal v o2 = Returns (text, Some err)).
Proof.
  intros o1 o2 Hd. split.
  - intros p H. pose proof (verdict_ignores_flag v o1 o2 Hd) as Hv.
    rewrite H in Hv. cbn [verdict] in Hv.
    destruct (marshal v o2) as [q|[t [e|]]]; cbn [verdict] in Hv;
      inversion Hv; reflexivity.
  - revert o1 o2 Hd.
    induction v as [|mm exact s|mm fields IH|mm|mm elem IH|mm t]
      using value_ind; intros o1 o2 Hd text err H.
    + discriminate.
    + destruct mm as [r|]; [exact H|].
      destruct exact; [|discriminate].
      change (marshal (VString None true s) o1)
        with (marshalStr (VString None true s) o1) in H.
      destruct (marshalStr_exact None s o1) as [t Ht].
      rewrite Ht in H. discriminate.
    + destruct mm as [r|]; [exact H|].
      rewrite marshal_struct in *.
      pose proof (abort_ignores_flag o1 o2 fields Hd) as Hab.
      destruct (abort o1 fields) as [x|] eqn:E.
      * rewrite (loop_abort _ _ _ E) in H. symmetry in Hab.
        now rewrite (loop_abort _ _ _ Hab).
      * rewrite (loop_complete _ _ E) in H.
        now apply finish_no_error in H.
    + destruct mm as [r|]; [exact H | discriminate].
    + destruct mm as [r|]; [exact H|].
      rewrite marshal_elem in *. now apply (IH o1 o2).
    + destruct mm as [r|]; [exact H | discriminate].
Qed.

Lemma failure_ignores_redaction_witness :
  marshal (VStruct None [(plain "Handle", handle)]) (options 0 true)
  = Returns (None, Some (Err "boom")).
Proof.
  apply (proj2 (failure_ignores_redaction
                  (VStruct None [(plain "Handle", handle)])
                  (options 0 false) (options 0 true) eq_refl)
               None (Err "boom")).
  reflexivity.
Defined.

Lemma length_separated (l1 l2 : list string) :
  Forall2 (fun a b => String.length a = String.length b) l1 l2 ->
  String.length (separated l1) = String.length (separated l2).
Proof.
  induction 1 as [|a b l1 l2 Hab Hrest IH]; [reflexivity|].
  destruct Hrest as [|a' b' l1' l2' Hab' Hrest'].
  - exact Hab.
  - change (String.length (a ++ newline ++ separated (a' :: l1'))
            = String.length (b ++ newline ++ separated (b' :: l2'))).
    rewrite !length_append, IH, Hab. reflexivity.
Qed.

Lemma length_layout (d : nat) (l1 l2 : list string) :
  Forall2 (fun a b => String.length a = String.length b) l1 l2 ->
  String.length (layout d l1) = String.length (layout d l2).
Proof.
  intros H. unfold layout.
  destruct H as [|a b l1 l2 Hab Hrest]; [reflexivity|].
  rewrite !length_append. f_equal. apply length_separated.
  change (Forall2 (fun a b => String.length a = String.length b)
            (map (fun line => replicate d tab ++ line) (a :: l1))
            (map (fun line => replicate d tab ++ line) (b :: l2))).
  assert (Hall : Forall2 (fun a b => String.length a = String.length b)
                   (a :: l1) (b :: l2)) by now constructor.
  clear Hab Hrest. induction Hall as [|x y xs ys Hxy _ IH]; cbn [map];
    constructor; [|exact IH].
  now rewrite !length_append, Hxy.
Qed.

(** A successful end of [marshalStruct] on lines of the same lengths gives
    texts of the same length, at the same level. *)
Lemma length_finish (o1 o2 : marshalOpts) (l1 l2 : list string) (t1 t2 : bytes) :
  indentLevel o1 = indentLevel o2 ->
  Forall2 (fun a b => String.length a = String.length b) l1 l2 ->
  marshalStruct_loop marshal [] o1 l1 = Returns (t1, None) ->
  marshalStruct_loop marshal [] o2 l2 = Returns (t2, None) ->
  String.length (string_of_bytes t1) = String.length (string_of_bytes t2).
Proof.
  intros Hd Hl H1 H2.
  destruct (Z.lt_ge_cases (indentLevel o1) 0) as [Hneg|Hpos].
  - destruct Hl as [|a b l1 l2 Hab Hrest].
    + cbn in H1, H2. inversion H1; inversion H2; reflexivity.
    + pose proof (finish_verdict o1 (a :: l1)) as Hv. rewrite H1 in Hv.
      apply Z.ltb_lt in Hneg. rewrite Hneg in Hv. discriminate.
  - rewrite finish_layout in H1 by lia.
    rewrite finish_layout in H2 by lia.
    inversion H1; inversion H2; subst. cbn [string_of_bytes].
    rewrite Hd. now apply length_layout.
Qed.

(** X10. Redaction never changes the length of the text: at the same
    level, the encodings of a value with and without the redaction flag,
    when both succeed, have the same number of bytes. *)
Theorem redaction_keeps_length (v : value) :
  forall o1 o2 t1 t2,
    indentLevel o1 = indentLevel o2 ->
    marshal v o1 = Returns (t1, None) ->
    marshal v o2 = Returns (t2, None) ->
    String.length (string_of_bytes t1) = String.length (string_of_bytes t2).
Proof.
  induction v as [|mm exact s|mm fields IH|mm|mm elem IH|mm t]
    using value_ind; intros o1 o2 t1 t2 Hd H1 H2.
  - discriminate.
  - destruct mm as [r|]; [cbn in H1, H2; congruence|].
    destruct exact; [|discriminate].
    change (marshalStr (VString None true s) o1 = Returns (t1, None)) in H1.
    change (marshalStr (VString None true s) o2 = Returns (t2, None)) in H2.
    assert (Hstr : forall o t,
               marshalStr (VString None true s) o = Returns (t, None) ->
               String.length (string_of_bytes t) = String.length s).
    { intros o t H. unfold marshalStr in H. destruct (obfuscate_ o).
      - destruct (obfuscate s) as [p|masked] eqn:E; cbn [bind] in H;
          [discriminate|].
        inversion H; subst. cbn [string_of_bytes]. now apply obfuscate_length.
      - cbn [bind] in H. now inversion H. }
    now rewrite (Hstr o1 t1 H1), (Hstr o2 t2 H2).
  - destruct mm as [r|]; [cbn in H1, H2; congruence|].
    rewrite marshal_struct in *.
    pose proof (abort_ignores_flag o1 o2 fields Hd) as Hab.
    destruct (abort o1 fields) as [x|] eqn:E1.
    + rewrite (loop_abort _ _ _ E1) in H1. subst x.
      exfalso. clear - E1. induction fields as [|f fs IHfs]; [discriminate|].
      cbn [abort] in E1. destruct (negb (Exported (fst f))); [auto|].
      destruct (fieldResult o1 f) as [p|[t [e|]]]; cbn [verdict] in E1;
        try discriminate. auto.
    + symmetry in Hab.
      rewrite (loop_complete _ _ E1) in H1. rewrite (loop_complete _ _ Hab) in H2.
      cbn [app] in H1, H2.
      refine (length_finish o1 o2 _ _ t1 t2 Hd _ H1 H2).
      apply abort_none_all_encode in E1. apply abort_none_all_encode in Hab.
      clear H1 H2. unfold all_encode in *.
      induction fields as [|f fs IHfs]; [constructor|].
      inversion IH as [|? ? Hf IHrest]; subst.
      inversion E1 as [|? ? Hf1 Hrest1]; subst.
      inversion Hab as [|? ? Hf2 Hrest2]; subst.
      rewrite !fieldLines_cons. unfold shown.
      destruct (Exported (fst f)) eqn:Ex; cbn [andb]; [|now apply IHfs].
      destruct (negb (Tag (fst f) =? tagOmitField)%string); [|now apply IHfs].
      constructor; [|now apply IHfs].
      destruct (Hf1 eq_refl) as [b1 Hb1]. destruct (Hf2 eq_refl) as [b2 Hb2].
      unfold fieldBytes. rewrite Hb1, Hb2. cbn [fst].
      rewrite !length_append. do 3 f_equal.
      apply (Hf (fieldOpts o1 (fst f)) (fieldOpts o2 (fst f)));
        [now apply indentLevel_fieldOpts | exact Hb1 | exact Hb2].
  - destruct mm as [r|]; cbn in H1, H2; congruence.
  - destruct mm as [r|]; [cbn in H1, H2; congruence|].
    rewrite marshal_elem in *. now apply (IH o1 o2).
  - destruct mm as [r|]; cbn in H1, H2; congruence.
Qed.

Lemma redaction_keeps_length_witness :
  String.length
    ("- **Name**: Alice" ++ newline ++ "- **Token**: abcdef1234")
  = String.length
      ("- **Name**: *lice" ++ newline ++ "- **Token**: ******1234").
Proof.
  apply (redaction_keeps_length
           (VStruct None [(plain "Name", VString None true "Alice");
                          (plain "Token", VString None true "abcdef1234")])
           (options 0 false) (options 0 true)
           (Some ("- **Name**: Alice" ++ newline ++ "- **Token**: abcdef1234"))
           (Some ("- **Name**: *lice" ++ newline ++ "- **Token**: ******1234")));
    reflexivity.
Defined.

(* ================================================================== *)
(** ** Splitting a struct *)

Lemma separated_app (l1 l2 : list string) :
  l1 <> [] -> l2 <> [] ->
  separated (l1 ++ l2) = separated l1 ++ newline ++ separated l2.
Proof.
  intros H1 H2. induction l1 as [|a l1 IH]; [congruence|].
  destruct l1 as [|b l1].
  - cbn [app]. destruct l2 as [|c l2]; [congruence | reflexivity].
  - change (a ++ newline ++ separated ((b :: l1) ++ l2)
            = (a ++ newline ++ separated (b :: l1)) ++ newline ++ separated l2).
    rewrite IH by discriminate. now rewrite !append_assoc.
Qed.

Lemma layout_app (d : nat) (l1 l2 : list string) :
  l1 <> [] -> l2 <> [] ->
  layout d (l1 ++ l2)
  = layout d l1 ++ (match d with O => newline | S _ => "" end) ++ layout d l2.
Proof.
  intros H1 H2. unfold layout.
  destruct l1 as [|a l1]; [congruence|].
  destruct l2 as [|b l2]; [congruence|].
  cbn [app]. change (a :: (l1 ++ b :: l2)%list) with ((a :: l1) ++ b :: l2)%list.
  rewrite map_app, separated_app by (cbn [map]; discriminate).
  destruct d; cbn [append]; now rewrite ?append_assoc.
Qed.

(** X12. The text of a struct is put together from the texts of its
    parts: when the fields [fs] and the fields [gs] each encode and each
    yield a line, the struct with the fields [fs ++ gs] is encoded as the
    text for [fs] followed by the text for [gs], with one newline in
    between at level 0 and nothing in between at a deeper level (where
    every text starts with a newline). *)
Theorem struct_text_concatenates (opts : marshalOpts) (fs gs : list field) :
  0 <= indentLevel opts ->
  all_encode opts fs ->
  all_encode opts gs ->
  fieldLines opts fs <> [] ->
  fieldLines opts gs <> [] ->
  exists t1 t2,
    marshal (VStruct None fs) opts = Returns (Some t1, None) /\
    marshal (VStruct None gs) opts = Returns (Some t2, None) /\
    marshal (VStruct None (fs ++ gs)) opts
    = Returns (Some (t1 ++ (if indentLevel opts =? 0 then newline else "")
                        ++ t2), None).
Proof.
  intros Hd Hfs Hgs Hl1 Hl2.
  assert (Hall : all_encode opts (fs ++ gs)) by (apply Forall_app; now split).
  exists (layout (Z.to_nat (indentLevel opts)) (fieldLines opts fs)),
         (layout (Z.to_nat (indentLevel opts)) (fieldLines opts gs)).
  rewrite !marshal_struct.
  rewrite (loop_all_encode _ _ Hfs), (loop_all_encode _ _ Hgs),
          (loop_all_encode _ _ Hall).
  rewrite !finish_layout by exact Hd.
  repeat split.
  rewrite fieldLines_app, layout_app by assumption.
  destruct (indentLevel opts =? 0) eqn:E.
  - apply Z.eqb_eq in E. rewrite E. reflexivity.
  - apply Z.eqb_neq in E.
    destruct (Z.to_nat (indentLevel opts)) eqn:En; [lia | reflexivity].
Qed.

Lemma struct_text_concatenates_witness :
  exists t1 t2,
    marshal (VStruct None [(plain "Name", VString None true "Alice")])
            (options 1 false) = Returns (Some t1, None) /\
    marshal (VStruct None [(plain "Age", VOther None "42")])
            (options 1 false) = Returns (Some t2, None) /\
    marshal (VStruct None ([(plain "Name", VString None true "Alice")]
                           ++ [(plain "Age", VOther None "42")]))
            (options 1 false)
    = Returns (Some (t1 ++ (if indentLevel (options 1 false) =? 0
                            then newline else "") ++ t2), None).
Proof.
  apply (struct_text_concatenates (options 1 false)
           [(plain "Name", VString None true "Alice")]
           [(plain "Age", VOther None "42")]).
  - simpl; lia.
  - constructor; [intros _; exists (Some "Alice"); reflexivity | constructor].
  - constructor; [intros _; exists (Some "42"); reflexivity | constructor].
  - discriminate.
  - discriminate.
Defined.
